(** * Bouncing-ball physics: a shallow embedding of [src/main.mjs]

    The program is one class, [Ball], and one frame callback, [gameLoop].
    [Ball] is a mutable object; each method is embedded as a function from
    the object's state before the call to its state after it, one [let] per
    assignment of the source, in the source's order.

    Numbers.  The source computes with JavaScript numbers.  The development
    reads them in exact arithmetic, as rationals [Q]: a decimal literal is
    the rational it denotes, [+], [-], [*], [/] are the field operations,
    and the comparisons are the order of [Q].  Rounding is outside the
    model.  Two places of the source meet values that are not finite
    numbers, the [mass] argument of the constructor and the result of the
    [mass] getter; they range over [number], which adds the two infinities
    and NaN to the rationals.  Equations between computed values are stated
    with [==], the equality of rationals; where the code leaves a value
    alone, or stores an expression as it is, the statement uses [=].

    Where a property of [checkCollisions] holds in exact arithmetic and not
    in the double-precision arithmetic the program runs on, module [Double]
    embeds the method a second time over binary64 numbers, and the
    difference is shown there on a concrete body. *)

From Stdlib Require Import QArith Qabs Lqa List Bool.
From Stdlib Require Import Floats.PrimFloat.
Import ListNotations.
Local Open Scope Q_scope.

(** ** Numbers *)

Inductive number : Type :=
| Finite (q : Q)
| Infinity
| NegInfinity
| NaN.

(** The global [isFinite]. *)
Definition isFinite (n : number) : bool :=
  match n with
  | Finite _ => true
  | _ => false
  end.

(** [a < b] and [a <= b] on finite numbers, as booleans. *)
Definition Qleb (a b : Q) : bool := Qle_bool a b.
Definition Qltb (a b : Q) : bool := negb (Qle_bool b a).

Infix "<=?" := Qleb (at level 70, no associativity) : Q_scope.
Infix "<?" := Qltb (at level 70, no associativity) : Q_scope.

(** [Math.abs] and [Math.sign]. *)
Definition Math_abs (q : Q) : Q := Qabs q.

Definition Math_sign (q : Q) : Q :=
  if 0 <? q then 1 else if q <? 0 then -1 else 0.

(** ** Data *)

(** [interface Vector2 { x: number; y: number }] *)
Record Vector2 : Type := mkVector2 { x : Q; y : Q }.

(** The fields of [class Ball]. *)
Record Ball : Type := mkBall {
  position : Vector2;
  velocity : Vector2;
  acceleration : Vector2;
  _inverseMass : Q;
  restitution : Q;
  radius : Q
}.

(** What [checkCollisions] and [gameLoop] read of the canvas. *)
Record Canvas : Type := mkCanvas { width : Q; height : Q }.

(** *** Assignments to one coordinate of one field *)

Definition set_position_x (v : Q) (this : Ball) : Ball :=
  mkBall (mkVector2 v (y (position this))) (velocity this) (acceleration this)
         (_inverseMass this) (restitution this) (radius this).

Definition set_position_y (v : Q) (this : Ball) : Ball :=
  mkBall (mkVector2 (x (position this)) v) (velocity this) (acceleration this)
         (_inverseMass this) (restitution this) (radius this).

Definition set_velocity_x (v : Q) (this : Ball) : Ball :=
  mkBall (position this) (mkVector2 v (y (velocity this))) (acceleration this)
         (_inverseMass this) (restitution this) (radius this).

Definition set_velocity_y (v : Q) (this : Ball) : Ball :=
  mkBall (position this) (mkVector2 (x (velocity this)) v) (acceleration this)
         (_inverseMass this) (restitution this) (radius this).

Definition set_acceleration_x (v : Q) (this : Ball) : Ball :=
  mkBall (position this) (velocity this) (mkVector2 v (y (acceleration this)))
         (_inverseMass this) (restitution this) (radius this).

Definition set_acceleration_y (v : Q) (this : Ball) : Ball :=
  mkBall (position this) (velocity this) (mkVector2 (x (acceleration this)) v)
         (_inverseMass this) (restitution this) (radius this).

(** ** The class [Ball] *)

(** [constructor(x, y, radius, mass, restitution, initialVelocity = {x: 0, y: 0})].
    A missing last argument is [None].  The object spread copies the two
    coordinates of [initialVelocity].  [1 / mass] is computed in the branch
    where [mass] is finite and positive only. *)
Definition new_Ball (x0 y0 radius0 : Q) (mass : number) (restitution0 : Q)
    (initialVelocity : option Vector2) : Ball :=
  let initialVelocity :=
    match initialVelocity with
    | Some v => v
    | None => mkVector2 0 0
    end in
  {| position := mkVector2 x0 y0;
     velocity := mkVector2 (x initialVelocity) (y initialVelocity);
     acceleration := mkVector2 0 0;
     _inverseMass :=
       match mass with
       | Finite m => if negb (isFinite mass) || (m <=? 0) then 0 else 1 / m
       | Infinity => 0
       | NegInfinity => 0
       | NaN => 0
       end;
     restitution := restitution0;
     radius := radius0 |}.

(** [get mass()] *)
Definition mass (this : Ball) : number :=
  if Qeq_bool (_inverseMass this) 0 then Infinity
  else Finite (1 / _inverseMass this).

(** [get inverseMass()] *)
Definition inverseMass (this : Ball) : Q := _inverseMass this.

(** [applyForce(force)] *)
Definition applyForce (force : Vector2) (this : Ball) : Ball :=
  if inverseMass this <=? 0 then this
  else
    let this :=
      set_acceleration_x (x (acceleration this) + x force * _inverseMass this) this in
    let this :=
      set_acceleration_y (y (acceleration this) + y force * _inverseMass this) this in
    this.

(** [applyGravity(g)] *)
Definition applyGravity (g : Q) (this : Ball) : Ball :=
  if _inverseMass this <=? 0 then this
  else
    let F := (1 / _inverseMass this) * g in
    applyForce (mkVector2 0 F) this.

(** [update(dt)] *)
Definition update (dt : Q) (this : Ball) : Ball :=
  if _inverseMass this <=? 0 then this
  else
    let this := set_velocity_x (x (velocity this) + x (acceleration this) * dt) this in
    let this := set_velocity_y (y (velocity this) + y (acceleration this) * dt) this in
    let this := set_position_x (x (position this) + x (velocity this) * dt) this in
    let this := set_position_y (y (position this) + y (velocity this) * dt) this in
    let this := set_acceleration_x 0 this in
    let this := set_acceleration_y 0 this in
    this.

(** [checkCollisions(canvas)] *)
Definition checkCollisions (canvas : Canvas) (this : Ball) : Ball :=
  let this :=
    if x (position this) - radius this <? 0 then
      let this := set_position_x (radius this) this in
      set_velocity_x (- x (velocity this) * restitution this) this
    else if width canvas <? x (position this) + radius this then
      let this := set_position_x (width canvas - radius this) this in
      set_velocity_x (- x (velocity this) * restitution this) this
    else this in
  let this :=
    if y (position this) - radius this <? 0 then
      let this := set_position_y (radius this) this in
      set_velocity_y (- y (velocity this) * restitution this) this
    else if height canvas <? y (position this) + radius this then
      let this := set_position_y (height canvas - radius this) this in
      set_velocity_y (- y (velocity this) * restitution this) this
    else this in
  this.

(** ** The frame callback *)

Definition GRAVITY_FORCE : Q := 600.
Definition DRAG_COEFF : Q := 1 # 1000.
Definition FRICTION_COEFF : Q := 3 # 10.

(** The ground-friction block of [gameLoop], from [const isOnGround] to the
    end of the [if] it guards.  The product [FRICTION_COEFF * realMass *
    GRAVITY_FORCE] is finite when [realMass] is; the getter returns
    [Infinity] only for a body whose inverse mass is zero, and on such a
    body [applyForce] returns at once. *)
Definition groundFriction (canvas : Canvas) (ball : Ball) : Ball :=
  let isOnGround := height canvas - (1 # 2) <=? y (position ball) + radius ball in
  if isOnGround && (0 <? inverseMass ball) then
    if (1 # 1000) <? Math_abs (x (velocity ball)) then
      match mass ball with
      | Finite realMass =>
          let frictionForce := FRICTION_COEFF * realMass * GRAVITY_FORCE in
          let signX := Math_sign (x (velocity ball)) in
          let frictionForceX := - signX * frictionForce in
          applyForce (mkVector2 frictionForceX 0) ball
      | _ => ball
      end
    else set_velocity_x 0 ball
  else ball.

(** The module-level state [gameLoop] works on: the one ball and [lastTime]. *)
Record World : Type := mkWorld { ball : Ball; lastTime : Q }.

Section Frame.

(** [Math.sqrt] has no rational counterpart; the frame is embedded over
    any function standing for it.  Nothing below assumes anything of it. *)
Variable Math_sqrt : Q -> Q.

(** [applyAirResistance(k)] *)
Definition applyAirResistance (k : Q) (this : Ball) : Ball :=
  if _inverseMass this <=? 0 then this
  else
    let vx := x (velocity this) in
    let vy := y (velocity this) in
    let speed := Math_sqrt (vx * vx + vy * vy) in
    if speed <? (1 # 1000) then this
    else
      let dragX := - k * speed * vx in
      let dragY := - k * speed * vy in
      applyForce (mkVector2 dragX dragY) this.

(** [gameLoop(timestamp)], without the drawing calls and the request for
    the next frame. *)
Definition gameLoop (canvas : Canvas) (timestamp : Q) (w : World) : World :=
  let dt := (timestamp - lastTime w) / 1000 in
  let lastTime' := timestamp in
  let dt := if (1 # 20) <? dt then 1 # 20 else dt in
  let b := ball w in
  let b := applyGravity GRAVITY_FORCE b in
  let b := applyAirResistance DRAG_COEFF b in
  let b := groundFriction canvas b in
  let b := update dt b in
  let b := checkCollisions canvas b in
  mkWorld b lastTime'.

End Frame.

(** The ball the program creates. *)
Definition theBall : Ball :=
  new_Ball 50 100 50 (Finite 5) (7 # 10) (Some (mkVector2 200 (-50))).

(** A sequence of calls on one body, as a caller may issue them after
    construction. *)
Inductive Call : Type :=
| CallApplyForce (force : Vector2)
| CallApplyGravity (g : Q)
| CallUpdate (dt : Q).

Definition call (c : Call) (this : Ball) : Ball :=
  match c with
  | CallApplyForce force => applyForce force this
  | CallApplyGravity g => applyGravity g this
  | CallUpdate dt => update dt this
  end.

Fixpoint calls (cs : list Call) (this : Ball) : Ball :=
  match cs with
  | [] => this
  | c :: cs => calls cs (call c this)
  end.

(** A body the methods treat as movable, and one they leave alone. *)
Definition movable (b : Ball) : Prop := 0 < _inverseMass b.
Definition immovable (b : Ball) : Prop := _inverseMass b <= 0.

(** The body fits between opposite edges of the canvas. *)
Definition fits (canvas : Canvas) (b : Ball) : Prop :=
  2 * radius b <= width canvas /\ 2 * radius b <= height canvas.

(** The whole extent of the body lies on the canvas. *)
Definition inside (canvas : Canvas) (b : Ball) : Prop :=
  radius b <= x (position b) <= width canvas - radius b /\
  radius b <= y (position b) <= height canvas - radius b.

Section Reachable.

Variable Math_sqrt : Q -> Q.

(** The states a body takes when it is built by the constructor and then
    only changed through the methods of the class. *)
Inductive reachable : Ball -> Prop :=
| reach_new x0 y0 radius0 mass0 restitution0 initialVelocity :
    reachable (new_Ball x0 y0 radius0 mass0 restitution0 initialVelocity)
| reach_applyForce force b :
    reachable b -> reachable (applyForce force b)
| reach_applyGravity g b :
    reachable b -> reachable (applyGravity g b)
| reach_applyAirResistance k b :
    reachable b -> reachable (applyAirResistance Math_sqrt k b)
| reach_update dt b :
    reachable b -> reachable (update dt b)
| reach_checkCollisions canvas b :
    reachable b -> reachable (checkCollisions canvas b).

End Reachable.

(** ** States used as examples *)

Definition canvas800x600 : Canvas := mkCanvas 800 600.

(** A canvas narrower than the ball the program creates is wide. *)
Definition canvas60x600 : Canvas := mkCanvas 60 600.

(** A canvas smaller than that ball in both directions. *)
Definition canvas40x40 : Canvas := mkCanvas 40 40.

(** A body of radius 50 in the bottom-left corner of the canvas, moving
    left and down: it overlaps the left edge and the bottom edge. *)
Definition cornerBall : Ball :=
  mkBall (mkVector2 10 590) (mkVector2 (-100) 200) (mkVector2 0 0)
         (1 # 5) (7 # 10) 50.

(** A body of radius 50 that overlaps the bottom edge while it moves up. *)
Definition risingBall : Ball :=
  mkBall (mkVector2 400 580) (mkVector2 0 (-50)) (mkVector2 0 0)
         (1 # 5) (7 # 10) 50.

(** A body of radius 50 near the top-left corner. *)
Definition wideBall : Ball :=
  mkBall (mkVector2 10 10) (mkVector2 30 20) (mkVector2 0 0)
         (1 # 5) (7 # 10) 50.

(** An immovable body whose accumulator was written from outside the class
    ([acceleration] is a public field). *)
Definition pushedWall : Ball :=
  mkBall (mkVector2 0 0) (mkVector2 0 0) (mkVector2 1 0) 0 1 1.

(** The ball the program creates, lying on the bottom edge of an 800 by 600
    canvas and sliding to the right. *)
Definition slidingBall : Ball :=
  mkBall (mkVector2 400 550) (mkVector2 200 0) (mkVector2 0 0)
         (1 # 5) (7 # 10) 50.

(** ** Runs of frames, and the energy of a body *)

Section Frames.

Variable Math_sqrt : Q -> Q.

(** The browser calls [gameLoop] once per animation frame, each time with a
    new timestamp; [frames] runs it on the timestamps of a list in turn. *)
Fixpoint frames (canvas : Canvas) (timestamps : list Q) (w : World) : World :=
  match timestamps with
  | [] => w
  | timestamp :: timestamps =>
      frames canvas timestamps (gameLoop Math_sqrt canvas timestamp w)
  end.

End Frames.





(** ** [checkCollisions] in double precision *)

Module Double.

Local Open Scope float_scope.

Record Vector2 : Type := mkVector2 { x : float; y : float }.

Record Ball : Type := mkBall {
  position : Vector2;
  velocity : Vector2;
  acceleration : Vector2;
  _inverseMass : float;
  restitution : float;
  radius : float
}.

Record Canvas : Type := mkCanvas { width : float; height : float }.

Definition set_position_x (v : float) (this : Ball) : Ball :=
  mkBall (mkVector2 v (y (position this))) (velocity this) (acceleration this)
         (_inverseMass this) (restitution this) (radius this).

Definition set_position_y (v : float) (this : Ball) : Ball :=
  mkBall (mkVector2 (x (position this)) v) (velocity this) (acceleration this)
         (_inverseMass this) (restitution this) (radius this).

Definition set_velocity_x (v : float) (this : Ball) : Ball :=
  mkBall (position this) (mkVector2 v (y (velocity this))) (acceleration this)
         (_inverseMass this) (restitution this) (radius this).

Definition set_velocity_y (v : float) (this : Ball) : Ball :=
  mkBall (position this) (mkVector2 (x (velocity this)) v) (acceleration this)
         (_inverseMass this) (restitution this) (radius this).

(** [checkCollisions(canvas)], with the operations and comparisons of
    binary64 numbers. *)
Definition checkCollisions (canvas : Canvas) (this : Ball) : Ball :=
  let this :=
    if x (position this) - radius this <? 0 then
      let this := set_position_x (radius this) this in
      set_velocity_x (- x (velocity this) * restitution this) this
    else if width canvas <? x (position this) + radius this then
      let this := set_position_x (width canvas - radius this) this in
      set_velocity_x (- x (velocity this) * restitution this) this
    else this in
  let this :=
    if y (position this) - radius this <? 0 then
      let this := set_position_y (radius this) this in
      set_velocity_y (- y (velocity this) * restitution this) this
    else if height canvas <? y (position this) + radius this then
      let this := set_position_y (height canvas - radius this) this in
      set_velocity_y (- y (velocity this) * restitution this) this
    else this in
  this.

(** The numbers the literals [320.2], [64.1] and [0.7] denote: division is
    correctly rounded, so each quotient is the double nearest to the
    decimal. *)
Definition d320_2 : float := 3202 / 10.
Definition d64_1 : float := 641 / 10.
Definition d0_7 : float := 7 / 10.

(** A canvas 320.2 wide and a body of radius 64.1 that has crossed its right
    edge while moving to the right. *)
Definition canvas320 : Canvas := mkCanvas d320_2 600.

Definition crossingBall : Ball :=
  mkBall (mkVector2 300 300) (mkVector2 10 0) (mkVector2 0 0)
         (1 / 5) d0_7 d64_1.

End Double.

(** ** Comparisons *)

Lemma Qltb_spec (a b : Q) : reflect (a < b) (a <? b).
Proof.
  unfold Qltb. destruct (Qle_bool b a) eqn:E; constructor.
  - apply Qle_bool_iff in E. lra.
  - assert (b <= a -> False) by (rewrite <- Qle_bool_iff; congruence). lra.
Qed.

Lemma Qleb_spec (a b : Q) : reflect (a <= b) (a <=? b).
Proof.
  unfold Qleb. destruct (Qle_bool a b) eqn:E; constructor.
  - now apply Qle_bool_iff.
  - rewrite <- Qle_bool_iff. congruence.
Qed.

(** Decide every comparison the goal branches on. *)
Ltac branches :=
  repeat match goal with
    | |- context [ ?a <? ?b ] => destruct (Qltb_spec a b)
    | |- context [ ?a <=? ?b ] => destruct (Qleb_spec a b)
    end.


(** ** What each method leaves alone *)

Lemma applyForce_immovable force b : immovable b -> applyForce force b = b.
Proof.
  unfold immovable, applyForce, inverseMass. intros H.
  destruct (Qleb_spec (_inverseMass b) 0); [reflexivity | contradiction].
Qed.

Lemma applyGravity_immovable g b : immovable b -> applyGravity g b = b.
Proof.
  unfold immovable, applyGravity. intros H.
  destruct (Qleb_spec (_inverseMass b) 0); [reflexivity | contradiction].
Qed.

Lemma update_immovable dt b : immovable b -> update dt b = b.
Proof.
  unfold immovable, update. intros H.
  destruct (Qleb_spec (_inverseMass b) 0); [reflexivity | contradiction].
Qed.

Lemma applyAirResistance_immovable sqrt k b :
  immovable b -> applyAirResistance sqrt k b = b.
Proof.
  unfold immovable, applyAirResistance. intros H.
  destruct (Qleb_spec (_inverseMass b) 0); [reflexivity | contradiction].
Qed.

Lemma calls_immovable cs : forall b, immovable b -> calls cs b = b.
Proof.
  induction cs as [| c cs IH]; intros b H; simpl.
  - reflexivity.
  - assert (E : call c b = b).
    { destruct c; simpl;
        [apply applyForce_immovable | apply applyGravity_immovable
        | apply update_immovable]; exact H. }
    rewrite E. apply IH, H.
Qed.

(** No method writes the inverse mass, the restitution or the radius. *)
Lemma applyForce_frame force b :
  _inverseMass (applyForce force b) = _inverseMass b /\
  restitution (applyForce force b) = restitution b /\
  radius (applyForce force b) = radius b /\
  position (applyForce force b) = position b /\
  velocity (applyForce force b) = velocity b.
Proof.
  unfold applyForce, inverseMass. branches; simpl; auto.
Qed.

Lemma applyGravity_frame g b :
  _inverseMass (applyGravity g b) = _inverseMass b /\
  restitution (applyGravity g b) = restitution b /\
  radius (applyGravity g b) = radius b /\
  position (applyGravity g b) = position b /\
  velocity (applyGravity g b) = velocity b.
Proof.
  unfold applyGravity. destruct (Qleb_spec (_inverseMass b) 0); auto.
  apply applyForce_frame.
Qed.

Lemma applyAirResistance_frame sqrt k b :
  _inverseMass (applyAirResistance sqrt k b) = _inverseMass b /\
  restitution (applyAirResistance sqrt k b) = restitution b /\
  radius (applyAirResistance sqrt k b) = radius b /\
  position (applyAirResistance sqrt k b) = position b /\
  velocity (applyAirResistance sqrt k b) = velocity b.
Proof.
  unfold applyAirResistance. destruct (Qleb_spec (_inverseMass b) 0); auto.
  cbv zeta. branches; auto. apply applyForce_frame.
Qed.

Lemma update_inverseMass dt b : _inverseMass (update dt b) = _inverseMass b.
Proof. unfold update. branches; reflexivity. Qed.

Lemma checkCollisions_frame canvas b :
  _inverseMass (checkCollisions canvas b) = _inverseMass b /\
  acceleration (checkCollisions canvas b) = acceleration b /\
  restitution (checkCollisions canvas b) = restitution b /\
  radius (checkCollisions canvas b) = radius b.
Proof.
  unfold checkCollisions.
  destruct (Qltb_spec (x (position b) - radius b) 0);
    [| destruct (Qltb_spec (width canvas) (x (position b) + radius b))];
    cbv zeta; simpl;
    match goal with
    | |- context [ ?a <? 0 ] => destruct (Qltb_spec a 0)
    end; simpl; auto;
    match goal with
    | |- context [ ?a <? ?c ] => destruct (Qltb_spec a c)
    end; simpl; auto.
Qed.

(** ** Integration *)

(** C1.  On a movable body [update dt] is a semi-implicit Euler step: the
    velocity becomes [velocity + acceleration * dt], and the position
    becomes [position + v' * dt] where [v'] is the velocity just computed,
    not the one the call started with. *)
Theorem update_velocity_before_position (dt : Q) (b : Ball) :
  movable b ->
  let b' := update dt b in
  x (velocity b') = x (velocity b) + x (acceleration b) * dt /\
  y (velocity b') = y (velocity b) + y (acceleration b) * dt /\
  x (position b') = x (position b) + x (velocity b') * dt /\
  y (position b') = y (position b) + y (velocity b') * dt /\
  x (position b') = x (position b) + (x (velocity b) + x (acceleration b) * dt) * dt /\
  y (position b') = y (position b) + (y (velocity b) + y (acceleration b) * dt) * dt.
Proof.
  unfold movable, update. intros Hm.
  destruct (Qleb_spec (_inverseMass b) 0) as [Hle | _]; [lra |].
  simpl. repeat split; reflexivity.
Qed.

Lemma update_velocity_before_position_witness :
  let b := applyGravity GRAVITY_FORCE theBall in
  let b' := update (2 # 125) b in
  movable b /\
  x (position b') = x (position b) + (x (velocity b) + x (acceleration b) * (2 # 125)) * (2 # 125) /\
  y (position b') = y (position b) + (y (velocity b) + y (acceleration b) * (2 # 125)) * (2 # 125).
Proof.
  intros b b'.
  assert (Hm : movable b) by (unfold movable; vm_compute; reflexivity).
  split; [exact Hm |].
  split; apply (update_velocity_before_position (2 # 125) b Hm).
Defined.

(** ** Boundary collisions: one axis at a time *)

(** What [checkCollisions] does to the horizontal coordinates depends on the
    horizontal coordinates only, and likewise for the vertical ones. *)
Lemma checkCollisions_x canvas b :
  let b' := checkCollisions canvas b in
  (x (position b) - radius b < 0 ->
     x (position b') = radius b /\
     x (velocity b') = - x (velocity b) * restitution b) /\
  (~ x (position b) - radius b < 0 -> width canvas < x (position b) + radius b ->
     x (position b') = width canvas - radius b /\
     x (velocity b') = - x (velocity b) * restitution b) /\
  (~ x (position b) - radius b < 0 -> ~ width canvas < x (position b) + radius b ->
     x (position b') = x (position b) /\
     x (velocity b') = x (velocity b)).
Proof.
  unfold checkCollisions.
  destruct (Qltb_spec (x (position b) - radius b) 0);
    [| destruct (Qltb_spec (width canvas) (x (position b) + radius b))];
    cbv zeta; simpl;
    match goal with
    | |- context [ ?a <? 0 ] => destruct (Qltb_spec a 0)
    end; simpl; try tauto;
    match goal with
    | |- context [ ?a <? ?c ] => destruct (Qltb_spec a c)
    end; simpl; tauto.
Qed.

Lemma checkCollisions_y canvas b :
  let b' := checkCollisions canvas b in
  (y (position b) - radius b < 0 ->
     y (position b') = radius b /\
     y (velocity b') = - y (velocity b) * restitution b) /\
  (~ y (position b) - radius b < 0 -> height canvas < y (position b) + radius b ->
     y (position b') = height canvas - radius b /\
     y (velocity b') = - y (velocity b) * restitution b) /\
  (~ y (position b) - radius b < 0 -> ~ height canvas < y (position b) + radius b ->
     y (position b') = y (position b) /\
     y (velocity b') = y (velocity b)).
Proof.
  unfold checkCollisions.
  destruct (Qltb_spec (x (position b) - radius b) 0);
    [| destruct (Qltb_spec (width canvas) (x (position b) + radius b))];
    cbv zeta; simpl;
    match goal with
    | |- context [ ?a <? 0 ] => destruct (Qltb_spec a 0)
    end; simpl; try tauto;
    match goal with
    | |- context [ ?a <? ?c ] => destruct (Qltb_spec a c)
    end; simpl; tauto.
Qed.

(** A body that fits ends up inside the canvas. *)
Lemma checkCollisions_inside canvas b :
  fits canvas b -> inside canvas (checkCollisions canvas b).
Proof.
  intros [Hw Hh]. unfold inside.
  destruct (checkCollisions_frame canvas b) as (_ & _ & _ & ->).
  pose proof (checkCollisions_x canvas b) as (X1 & X2 & X3).
  pose proof (checkCollisions_y canvas b) as (Y1 & Y2 & Y3).
  cbv zeta in *.
  split.
  - destruct (Qlt_le_dec (x (position b) - radius b) 0) as [L | L].
    + destruct (X1 L) as [-> _]. lra.
    + destruct (Qlt_le_dec (width canvas) (x (position b) + radius b)) as [R | R].
      * destruct X2 as [-> _]; [lra | exact R | lra].
      * destruct X3 as [-> _]; lra.
  - destruct (Qlt_le_dec (y (position b) - radius b) 0) as [L | L].
    + destruct (Y1 L) as [-> _]. lra.
    + destruct (Qlt_le_dec (height canvas) (y (position b) + radius b)) as [R | R].
      * destruct Y2 as [-> _]; [lra | exact R | lra].
      * destruct Y3 as [-> _]; lra.
Qed.

(** A body inside the canvas is returned as it is. *)
Lemma checkCollisions_fixed canvas b :
  inside canvas b -> checkCollisions canvas b = b.
Proof.
  intros [[X1 X2] [Y1 Y2]]. unfold checkCollisions.
  destruct (Qltb_spec (x (position b) - radius b) 0); [lra |].
  destruct (Qltb_spec (width canvas) (x (position b) + radius b)); [lra |].
  destruct (Qltb_spec (y (position b) - radius b) 0); [lra |].
  destruct (Qltb_spec (height canvas) (y (position b) + radius b)); [lra |].
  reflexivity.
Qed.

(** C2, as stated, fails: a body that meets the bottom edge while it also
    overlaps the left edge has its horizontal velocity reflected. *)
Lemma bottom_bounce_changes_vx_in_corner :
  height canvas800x600 < y (position cornerBall) + radius cornerBall /\
  0 < y (velocity cornerBall) /\
  x (velocity (checkCollisions canvas800x600 cornerBall)) == 70 /\
  ~ x (velocity (checkCollisions canvas800x600 cornerBall)) == x (velocity cornerBall).
Proof.
  vm_compute. repeat split; try reflexivity. discriminate.
Qed.

(** C2, amended.  A body that overlaps the bottom edge with downward speed
    [v] leaves [checkCollisions] with vertical velocity [- v * restitution],
    so with upward speed [v * restitution].  Its horizontal velocity is
    unchanged when it overlaps neither the left nor the right edge
    ([radius <= position.x <= width - radius]); when it overlaps one of
    them ([position.x - radius < 0] or [position.x + radius > width]) the
    same call reflects the horizontal velocity too, to
    [- velocity.x * restitution]. *)
Theorem bottom_bounce_restitution (canvas : Canvas) (b : Ball) :
  height canvas < y (position b) + radius b ->
  0 < y (velocity b) ->
  let b' := checkCollisions canvas b in
  y (velocity b') = - y (velocity b) * restitution b /\
  - y (velocity b') == y (velocity b) * restitution b /\
  (radius b <= x (position b) <= width canvas - radius b ->
   x (velocity b') = x (velocity b)) /\
  (x (position b) - radius b < 0 \/ width canvas < x (position b) + radius b ->
   x (velocity b') = - x (velocity b) * restitution b).
Proof.
  intros Hb Hv b'. subst b'.
  pose proof (checkCollisions_x canvas b) as (X1 & X2 & X3).
  pose proof (checkCollisions_y canvas b) as (Y1 & Y2 & _).
  cbv zeta in *.
  assert (E : y (velocity (checkCollisions canvas b))
              = - y (velocity b) * restitution b).
  { destruct (Qlt_le_dec (y (position b) - radius b) 0) as [L | L].
    - apply Y1, L.
    - apply Y2; [lra | exact Hb]. }
  split; [exact E |]. split; [rewrite E; ring |]. split.
  - intros [Hl Hr]. apply X3; lra.
  - intros Hside.
    destruct (Qlt_le_dec (x (position b) - radius b) 0) as [L | L].
    + apply X1, L.
    + destruct Hside as [L' | R]; [lra |]. apply X2; [lra | exact R].
Qed.

Lemma bottom_bounce_restitution_witness :
  let b := mkBall (mkVector2 400 580) (mkVector2 120 200) (mkVector2 0 0)
                  (1 # 5) (7 # 10) 50 in
  let b' := checkCollisions canvas800x600 b in
  let c' := checkCollisions canvas800x600 cornerBall in
  y (velocity b') = - 200 * (7 # 10) /\
  x (velocity b') = 120 /\
  y (velocity c') = - 200 * (7 # 10) /\
  x (velocity c') = - (-100) * (7 # 10).
Proof.
  intros b b' c'.
  destruct (bottom_bounce_restitution canvas800x600 b) as (Vy & _ & Vx & _);
    [vm_compute; reflexivity | vm_compute; reflexivity |].
  destruct (bottom_bounce_restitution canvas800x600 cornerBall) as (Wy & _ & _ & Wx);
    [vm_compute; reflexivity | vm_compute; reflexivity |].
  split; [exact Vy |]. split; [apply Vx; vm_compute; split; discriminate |].
  split; [exact Wy |]. apply Wx. left. vm_compute. reflexivity.
Defined.

(** C3, as stated, fails: on a canvas narrower than the body's diameter the
    left edge is corrected and the body still sticks out on the right. *)
Lemma clamp_fails_on_narrow_canvas :
  let b' := checkCollisions canvas60x600 wideBall in
  x (position b') == 50 /\
  width canvas60x600 - radius b' == 10 /\
  ~ x (position b') <= width canvas60x600 - radius b'.
Proof.
  cbv zeta. split; [vm_compute; reflexivity |].
  split; [vm_compute; reflexivity |].
  intro H. vm_compute in H. apply H. reflexivity.
Qed.

(** C3, amended.  When the body fits between opposite edges
    ([2 * radius <= width] and [2 * radius <= height]), one call of
    [checkCollisions] leaves its whole extent on the canvas, whatever the
    position before the call. *)
Theorem checkCollisions_clamps_position (canvas : Canvas) (b : Ball) :
  2 * radius b <= width canvas ->
  2 * radius b <= height canvas ->
  let b' := checkCollisions canvas b in
  radius b' <= x (position b') <= width canvas - radius b' /\
  radius b' <= y (position b') <= height canvas - radius b'.
Proof.
  intros Hw Hh b'. apply checkCollisions_inside. split; assumption.
Qed.

Lemma checkCollisions_clamps_position_witness :
  let b' := checkCollisions canvas800x600 cornerBall in
  radius b' <= x (position b') <= width canvas800x600 - radius b' /\
  radius b' <= y (position b') <= height canvas800x600 - radius b'.
Proof.
  apply (checkCollisions_clamps_position canvas800x600 cornerBall);
    vm_compute; discriminate.
Defined.

(** ** Immovable bodies *)

(** C4.  A body built with mass [0], [-5] or [Infinity] has inverse mass
    [0], and no sequence of [applyForce], [applyGravity] and [update] calls
    changes its position or its velocity. *)
Theorem immovable_masses_stay_put (m : number) :
  In m [Finite 0; Finite (-5); Infinity] ->
  forall (x0 y0 radius0 restitution0 : Q) (initialVelocity : option Vector2),
    let b := new_Ball x0 y0 radius0 m restitution0 initialVelocity in
    _inverseMass b = 0 /\
    forall cs : list Call,
      position (calls cs b) = position b /\ velocity (calls cs b) = velocity b.
Proof.
  intros Hm x0 y0 radius0 restitution0 initialVelocity b.
  assert (E : _inverseMass b = 0).
  { subst b. simpl in Hm.
    destruct Hm as [<- | [<- | [<- | []]]]; reflexivity. }
  split; [exact E |].
  intros cs. rewrite calls_immovable; [split; reflexivity |].
  unfold immovable. rewrite E. lra.
Qed.

Lemma immovable_masses_stay_put_witness :
  let b := new_Ball 50 100 50 (Finite (-5)) (7 # 10) (Some (mkVector2 200 (-50))) in
  let cs := [CallApplyGravity 600; CallApplyForce (mkVector2 10 0); CallUpdate (2 # 125)] in
  _inverseMass b = 0 /\
  position (calls cs b) = mkVector2 50 100 /\
  velocity (calls cs b) = mkVector2 200 (-50).
Proof.
  intros b cs.
  assert (Hm : In (Finite (-5)) [Finite 0; Finite (-5); Infinity])
    by (simpl; auto).
  destruct (immovable_masses_stay_put (Finite (-5)) Hm 50 100 50 (7 # 10)
              (Some (mkVector2 200 (-50)))) as [E H].
  split; [exact E |]. exact (H cs).
Defined.

(** ** The accumulator *)

(** Along every reachable state an immovable body has an empty accumulator. *)
Lemma reachable_immovable_accumulator sqrt b :
  reachable sqrt b -> immovable b -> acceleration b = mkVector2 0 0.
Proof.
  induction 1 as [ | force b R IH | g b R IH | k b R IH | dt b R IH | canvas b R IH ];
    intros Hi.
  - reflexivity.
  - assert (Hb : immovable b).
    { unfold immovable in *.
      destruct (applyForce_frame force b) as (E & _). rewrite E in Hi. exact Hi. }
    rewrite applyForce_immovable by exact Hb. apply IH, Hb.
  - assert (Hb : immovable b).
    { unfold immovable in *.
      destruct (applyGravity_frame g b) as (E & _). rewrite E in Hi. exact Hi. }
    rewrite applyGravity_immovable by exact Hb. apply IH, Hb.
  - assert (Hb : immovable b).
    { unfold immovable in *.
      destruct (applyAirResistance_frame sqrt k b) as (E & _).
      rewrite E in Hi. exact Hi. }
    rewrite applyAirResistance_immovable by exact Hb. apply IH, Hb.
  - assert (Hb : immovable b).
    { unfold immovable in *. rewrite update_inverseMass in Hi. exact Hi. }
    rewrite update_immovable by exact Hb. apply IH, Hb.
  - destruct (checkCollisions_frame canvas b) as (E & A & _).
    rewrite A. apply IH. unfold immovable in *. rewrite E in Hi. exact Hi.
Qed.

(** C5, as stated, fails: [update] returns before the reset on an immovable
    body, so an accumulator that is not zero stays as it is. *)
Lemma update_keeps_accumulator_of_immovable :
  _inverseMass pushedWall == 0 /\
  acceleration (update 1 pushedWall) = mkVector2 1 0 /\
  ~ x (acceleration (update 1 pushedWall)) == 0.
Proof.
  split; [reflexivity |]. split; [reflexivity |].
  vm_compute. discriminate.
Qed.

(** C5, amended.  After [update dt] the accumulator of a movable body is
    exactly [(0, 0)], whatever was accumulated before; on an immovable body
    [update dt] leaves the accumulator as it was, and that is [(0, 0)] for
    every body that was built by the constructor and changed through the
    methods of the class only. *)
Theorem update_drains_accumulator (dt : Q) (b : Ball) :
  (movable b -> acceleration (update dt b) = mkVector2 0 0) /\
  (immovable b -> acceleration (update dt b) = acceleration b) /\
  (forall sqrt, reachable sqrt b -> acceleration (update dt b) = mkVector2 0 0).
Proof.
  assert (M : movable b -> acceleration (update dt b) = mkVector2 0 0).
  { unfold movable, update. intros Hm.
    destruct (Qleb_spec (_inverseMass b) 0) as [Hle | _]; [lra | reflexivity]. }
  assert (I : immovable b -> acceleration (update dt b) = acceleration b).
  { intros Hi. rewrite update_immovable by exact Hi. reflexivity. }
  split; [exact M |]. split; [exact I |].
  intros sqrt R.
  destruct (Qlt_le_dec 0 (_inverseMass b)) as [Hm | Hi].
  - apply M, Hm.
  - rewrite (I Hi). apply (reachable_immovable_accumulator sqrt b R Hi).
Qed.

Lemma update_drains_accumulator_witness :
  let b := applyForce (mkVector2 10 0) (applyGravity GRAVITY_FORCE theBall) in
  movable b /\
  x (acceleration b) == 2 /\ y (acceleration b) == 600 /\
  acceleration (update (2 # 125) b) = mkVector2 0 0.
Proof.
  intros b.
  assert (Hm : movable b) by (unfold movable; vm_compute; reflexivity).
  split; [exact Hm |]. split; [vm_compute; reflexivity |].
  split; [vm_compute; reflexivity |].
  exact (proj1 (update_drains_accumulator (2 # 125) b) Hm).
Defined.

(** ** Boundary collisions: priority, idempotence, direction *)

(** C6.  On each axis one call corrects at most one of the two opposite
    edges: the coordinate and the velocity component are either left alone,
    or set by the left (top) correction, or set by the right (bottom) one,
    and the velocity is reflected once at most.  When the body overlaps both
    edges of an axis the left (top) correction is the one applied, and the
    body still overlaps the right (bottom) edge after the call. *)
Theorem one_boundary_per_axis (canvas : Canvas) (b : Ball) :
  let b' := checkCollisions canvas b in
  (x (position b) - radius b < 0 -> width canvas < x (position b) + radius b ->
     x (position b') = radius b /\
     x (velocity b') = - x (velocity b) * restitution b /\
     ~ x (position b') == width canvas - radius b /\
     width canvas < x (position b') + radius b') /\
  (y (position b) - radius b < 0 -> height canvas < y (position b) + radius b ->
     y (position b') = radius b /\
     y (velocity b') = - y (velocity b) * restitution b /\
     ~ y (position b') == height canvas - radius b /\
     height canvas < y (position b') + radius b') /\
  ((x (position b') = x (position b) /\ x (velocity b') = x (velocity b)) \/
   (x (position b') = radius b /\
    x (velocity b') = - x (velocity b) * restitution b) \/
   (x (position b') = width canvas - radius b /\
    x (velocity b') = - x (velocity b) * restitution b)) /\
  ((y (position b') = y (position b) /\ y (velocity b') = y (velocity b)) \/
   (y (position b') = radius b /\
    y (velocity b') = - y (velocity b) * restitution b) \/
   (y (position b') = height canvas - radius b /\
    y (velocity b') = - y (velocity b) * restitution b)).
Proof.
  intros b'. subst b'.
  destruct (checkCollisions_frame canvas b) as (_ & _ & _ & Er).
  pose proof (checkCollisions_x canvas b) as (X1 & X2 & X3).
  pose proof (checkCollisions_y canvas b) as (Y1 & Y2 & Y3).
  cbv zeta in *. rewrite Er.
  repeat apply conj.
  - intros L R. destruct (X1 L) as [Ep Ev]. rewrite Ep.
    repeat split; [exact Ev | lra | lra].
  - intros L R. destruct (Y1 L) as [Ep Ev]. rewrite Ep.
    repeat split; [exact Ev | lra | lra].
  - destruct (Qlt_le_dec (x (position b) - radius b) 0) as [L | L].
    + right; left. apply X1, L.
    + destruct (Qlt_le_dec (width canvas) (x (position b) + radius b)) as [R | R].
      * right; right. apply X2; [lra | exact R].
      * left. apply X3; lra.
  - destruct (Qlt_le_dec (y (position b) - radius b) 0) as [L | L].
    + right; left. apply Y1, L.
    + destruct (Qlt_le_dec (height canvas) (y (position b) + radius b)) as [R | R].
      * right; right. apply Y2; [lra | exact R].
      * left. apply Y3; lra.
Qed.

Lemma one_boundary_per_axis_witness :
  let b' := checkCollisions canvas40x40 wideBall in
  position b' = mkVector2 50 50 /\
  x (velocity b') = - 30 * (7 # 10) /\
  y (velocity b') = - 20 * (7 # 10) /\
  width canvas40x40 < x (position b') + radius b' /\
  height canvas40x40 < y (position b') + radius b'.
Proof.
  intros b'.
  destruct (one_boundary_per_axis canvas40x40 wideBall) as (X & Y & _).
  destruct X as (_ & Vx & _ & Ox); [vm_compute; reflexivity .. |].
  destruct Y as (_ & Vy & _ & Oy); [vm_compute; reflexivity .. |].
  split; [reflexivity |].
  split; [exact Vx |]. split; [exact Vy |]. split; [exact Ox | exact Oy].
Defined.

(** C9, as stated, fails on the numbers the program computes with.  On a
    canvas 320.2 wide a body of radius 64.1 fits; the first call clamps
    [position.x] to the double [320.2 - 64.1], the second call finds
    [position.x + radius] above [320.2] by one rounding, takes the right
    branch again and reflects the horizontal velocity a second time: [-7]
    after the first call, positive after the second. *)
Lemma second_call_reflects_again_in_doubles :
  let b1 := Double.checkCollisions Double.canvas320 Double.crossingBall in
  let b2 := Double.checkCollisions Double.canvas320 b1 in
  PrimFloat.leb (2 * Double.radius Double.crossingBall)
                (Double.width Double.canvas320) = true /\
  PrimFloat.leb (2 * Double.radius Double.crossingBall)
                (Double.height Double.canvas320) = true /\
  PrimFloat.ltb (Double.width Double.canvas320)
                (Double.x (Double.position b1) + Double.radius b1) = true /\
  PrimFloat.eqb (Double.x (Double.position b2)) (Double.x (Double.position b1))
  = true /\
  PrimFloat.eqb (Double.x (Double.velocity b1)) (-7) = true /\
  PrimFloat.ltb 0 (Double.x (Double.velocity b2)) = true /\
  PrimFloat.eqb (Double.x (Double.velocity b2)) (Double.x (Double.velocity b1))
  = false.
Proof. vm_compute. repeat split. Qed.

(** C9, amended.  In exact arithmetic, when the body fits between opposite
    edges, a second call of [checkCollisions] with the same canvas returns
    the state the first call produced: position and velocity, and every
    other field, are unchanged. *)
Theorem checkCollisions_idempotent (canvas : Canvas) (b : Ball) :
  2 * radius b <= width canvas ->
  2 * radius b <= height canvas ->
  let b' := checkCollisions canvas b in
  checkCollisions canvas b' = b' /\
  position (checkCollisions canvas b') = position b' /\
  velocity (checkCollisions canvas b') = velocity b'.
Proof.
  intros Hw Hh b'.
  assert (E : checkCollisions canvas b' = b').
  { apply checkCollisions_fixed. subst b'.
    apply checkCollisions_inside. split; assumption. }
  rewrite E. repeat split.
Qed.

Lemma checkCollisions_idempotent_witness :
  let b' := checkCollisions canvas800x600 cornerBall in
  position b' = mkVector2 50 (600 - 50) /\
  checkCollisions canvas800x600 b' = b'.
Proof.
  intros b'. split; [reflexivity |].
  apply (checkCollisions_idempotent canvas800x600 cornerBall);
    vm_compute; discriminate.
Defined.

(** C10.  The reflection is decided by the position alone.  A body that
    overlaps the bottom edge and not the top one leaves [checkCollisions]
    with vertical velocity [- velocity.y * restitution], also when it was
    already moving up; with a positive restitution such a body moves down,
    toward the edge, after the call. *)
Theorem reflection_ignores_direction (canvas : Canvas) (b : Ball) :
  height canvas < y (position b) + radius b ->
  0 <= y (position b) - radius b ->
  let b' := checkCollisions canvas b in
  y (velocity b') = - y (velocity b) * restitution b /\
  (y (velocity b) < 0 -> 0 < restitution b -> 0 < y (velocity b')).
Proof.
  intros Hb Ht b'. subst b'.
  pose proof (checkCollisions_y canvas b) as (_ & Y2 & _). cbv zeta in Y2.
  destruct Y2 as [_ Ev]; [lra | exact Hb |].
  split; [exact Ev |].
  intros Hv Hr. rewrite Ev. nra.
Qed.

Lemma reflection_ignores_direction_witness :
  y (velocity risingBall) < 0 /\
  y (velocity (checkCollisions canvas800x600 risingBall)) = - (-50) * (7 # 10) /\
  0 < y (velocity (checkCollisions canvas800x600 risingBall)).
Proof.
  split; [vm_compute; reflexivity |].
  destruct (reflection_ignores_direction canvas800x600 risingBall) as [Ev Hd];
    [vm_compute; reflexivity | vm_compute; discriminate |].
  split; [exact Ev |].
  apply Hd; vm_compute; reflexivity.
Defined.

(** ** Gravity *)

(** C8.  On a movable body [applyGravity g] adds exactly [g] to the vertical
    component of the accumulator and nothing to the horizontal one, whatever
    the inverse mass: the force [(1 / inverseMass) * g] is multiplied by
    [inverseMass] again in [applyForce]. *)
Theorem applyGravity_adds_g (g : Q) (b : Ball) :
  movable b ->
  y (acceleration (applyGravity g b)) == y (acceleration b) + g /\
  x (acceleration (applyGravity g b)) == x (acceleration b) /\
  y (acceleration (applyGravity g b))
  = y (acceleration b) + (1 / _inverseMass b) * g * _inverseMass b.
Proof.
  unfold movable, applyGravity, applyForce, inverseMass. intros Hm.
  destruct (Qleb_spec (_inverseMass b) 0) as [Hle | _]; [lra |].
  simpl. repeat split.
  - field. lra.
  - ring.
Qed.

Lemma applyGravity_adds_g_witness :
  movable theBall /\
  y (acceleration (applyGravity GRAVITY_FORCE theBall)) == 600 /\
  x (acceleration (applyGravity GRAVITY_FORCE theBall)) == 0.
Proof.
  assert (Hm : movable theBall) by (unfold movable; vm_compute; reflexivity).
  split; [exact Hm |].
  destruct (applyGravity_adds_g GRAVITY_FORCE theBall Hm) as (Ey & Ex & _).
  split.
  - rewrite Ey. vm_compute. reflexivity.
  - rewrite Ex. vm_compute. reflexivity.
Defined.

(** ** Ground friction *)

Lemma mass_movable b : movable b -> mass b = Finite (1 / _inverseMass b).
Proof.
  unfold movable, mass. intros Hm.
  destruct (Qeq_bool (_inverseMass b) 0) eqn:E; [| reflexivity].
  apply Qeq_bool_iff in E. lra.
Qed.

Lemma Math_sign_cases q :
  (0 < q /\ Math_sign q = 1) \/ (q < 0 /\ Math_sign q = -1) \/
  (q == 0 /\ Math_sign q = 0).
Proof.
  unfold Math_sign.
  destruct (Qltb_spec 0 q); [left; split; [assumption | reflexivity] |].
  destruct (Qltb_spec q 0); [right; left; split; [assumption | reflexivity] |].
  right; right. split; [lra | reflexivity].
Qed.

Lemma applyForce_movable force b :
  movable b ->
  acceleration (applyForce force b)
  = mkVector2 (x (acceleration b) + x force * _inverseMass b)
              (y (acceleration b) + y force * _inverseMass b).
Proof.
  unfold movable, applyForce, inverseMass. intros Hm.
  destruct (Qleb_spec (_inverseMass b) 0) as [Hle | _]; [lra | reflexivity].
Qed.

(** The friction block on a movable body on the ground that slides. *)
Lemma groundFriction_sliding canvas b :
  movable b ->
  height canvas - (1 # 2) <= y (position b) + radius b ->
  (1 # 1000) < Math_abs (x (velocity b)) ->
  exists F : Q,
    groundFriction canvas b = applyForce (mkVector2 F 0) b /\
    Qabs F == FRICTION_COEFF * (1 / _inverseMass b) * GRAVITY_FORCE /\
    F * x (velocity b) < 0.
Proof.
  intros Hm Hg Hs. unfold groundFriction, inverseMass.
  destruct (Qleb_spec (height canvas - (1 # 2)) (y (position b) + radius b));
    [| contradiction].
  destruct (Qltb_spec 0 (_inverseMass b)); [| contradiction].
  destruct (Qltb_spec (1 # 1000) (Math_abs (x (velocity b)))); [| contradiction].
  rewrite (mass_movable b Hm). cbv zeta. simpl andb. cbv iota.
  eexists. split; [reflexivity |].
  assert (Hi : 0 < 1 / _inverseMass b).
  { unfold Qdiv. rewrite Qmult_1_l. apply Qinv_lt_0_compat, Hm. }
  set (m := 1 / _inverseMass b) in *.
  assert (Hk : 0 < FRICTION_COEFF * m * GRAVITY_FORCE).
  { unfold FRICTION_COEFF, GRAVITY_FORCE. lra. }
  set (K := FRICTION_COEFF * m * GRAVITY_FORCE) in *.
  unfold Math_abs in Hs.
  destruct (Math_sign_cases (x (velocity b))) as [[Hv ->] | [[Hv ->] | [Hv ->]]].
  - split.
    + rewrite Qabs_neg by lra. ring.
    + nra.
  - split.
    + rewrite Qabs_pos by lra. ring.
    + nra.
  - rewrite Hv in Hs. vm_compute in Hs. discriminate.
Qed.

(** The friction block on a movable body on the ground that does not. *)
Lemma groundFriction_resting canvas b :
  movable b ->
  height canvas - (1 # 2) <= y (position b) + radius b ->
  ~ (1 # 1000) < Math_abs (x (velocity b)) ->
  groundFriction canvas b = set_velocity_x 0 b.
Proof.
  intros Hm Hg Hs. unfold groundFriction, inverseMass.
  destruct (Qleb_spec (height canvas - (1 # 2)) (y (position b) + radius b));
    [| contradiction].
  destruct (Qltb_spec 0 (_inverseMass b)); [| contradiction].
  destruct (Qltb_spec (1 # 1000) (Math_abs (x (velocity b)))); [contradiction |].
  reflexivity.
Qed.

(** C7.  In one frame, on a movable body whose lower extent is no more than
    0.5 above the bottom edge, the friction block runs between the drag call
    and [update]: if [|velocity.x| > 0.001] it hands [applyForce] a
    horizontal force of magnitude [FRICTION_COEFF * mass * GRAVITY_FORCE]
    whose sign is opposite to that of [velocity.x], which [applyForce] adds,
    times the inverse mass, to the accumulator that [update] then reads;
    otherwise it sets [velocity.x] to [0] and touches nothing else. *)
Theorem gameLoop_ground_friction
    (sqrt : Q -> Q) (canvas : Canvas) (timestamp : Q) (w : World) :
  let b := ball w in
  let b0 := applyAirResistance sqrt DRAG_COEFF (applyGravity GRAVITY_FORCE b) in
  let b1 := groundFriction canvas b0 in
  let dt := (timestamp - lastTime w) / 1000 in
  let dt := if (1 # 20) <? dt then 1 # 20 else dt in
  movable b ->
  height canvas - (1 # 2) <= y (position b) + radius b ->
  ball (gameLoop sqrt canvas timestamp w) = checkCollisions canvas (update dt b1) /\
  ((1 # 1000) < Math_abs (x (velocity b)) ->
   exists m F : Q,
     mass b = Finite m /\
     Qabs F == FRICTION_COEFF * m * GRAVITY_FORCE /\
     F * x (velocity b) < 0 /\
     b1 = applyForce (mkVector2 F 0) b0 /\
     x (acceleration b1) = x (acceleration b0) + F * _inverseMass b /\
     y (acceleration b1) = y (acceleration b0) + 0 * _inverseMass b /\
     velocity b1 = velocity b) /\
  (~ (1 # 1000) < Math_abs (x (velocity b)) ->
   b1 = set_velocity_x 0 b0 /\
   x (velocity b1) = 0 /\
   y (velocity b1) = y (velocity b) /\
   acceleration b1 = acceleration b0).
Proof.
  intros b b0 b1 dt0 dt Hm Hg.
  destruct (applyGravity_frame GRAVITY_FORCE b) as (Gi & _ & Gr & Gp & Gv).
  destruct (applyAirResistance_frame sqrt DRAG_COEFF (applyGravity GRAVITY_FORCE b))
    as (Ai & _ & Ar & Ap & Av).
  fold b0 in Ai, Ar, Ap, Av.
  rewrite Gi in Ai. rewrite Gr in Ar. rewrite Gp in Ap. rewrite Gv in Av.
  assert (Hm0 : movable b0) by (unfold movable; rewrite Ai; exact Hm).
  assert (Hg0 : height canvas - (1 # 2) <= y (position b0) + radius b0)
    by (rewrite Ap, Ar; exact Hg).
  split; [reflexivity |]. split.
  - intros Hs.
    assert (Hs0 : (1 # 1000) < Math_abs (x (velocity b0))) by (rewrite Av; exact Hs).
    destruct (groundFriction_sliding canvas b0 Hm0 Hg0 Hs0) as (F & E & Ha & Ho).
    exists (1 / _inverseMass b), F.
    fold b1 in E. rewrite Ai in Ha. rewrite Av in Ho.
    split; [apply mass_movable, Hm |].
    split; [exact Ha |]. split; [exact Ho |]. split; [exact E |].
    rewrite E, (applyForce_movable _ b0 Hm0), Ai. simpl.
    split; [reflexivity |]. split; [reflexivity |].
    destruct (applyForce_frame (mkVector2 F 0) b0) as (_ & _ & _ & _ & Fv).
    rewrite Fv. exact Av.
  - intros Hs.
    assert (Hs0 : ~ (1 # 1000) < Math_abs (x (velocity b0))) by (rewrite Av; exact Hs).
    pose proof (groundFriction_resting canvas b0 Hm0 Hg0 Hs0) as E.
    fold b1 in E. rewrite E. simpl. rewrite Av. repeat split.
Qed.

Lemma gameLoop_ground_friction_witness :
  let sqrt := fun _ : Q => 0 in
  let w := mkWorld slidingBall 0 in
  let b0 := applyAirResistance sqrt DRAG_COEFF (applyGravity GRAVITY_FORCE slidingBall) in
  let b1 := groundFriction canvas800x600 b0 in
  ball (gameLoop sqrt canvas800x600 16 w)
  = checkCollisions canvas800x600 (update ((16 - 0) / 1000) b1) /\
  exists F : Q,
    Qabs F == 900 /\
    F * 200 < 0 /\
    x (acceleration b1) = x (acceleration b0) + F * (1 # 5).
Proof.
  intros sqrt w b0 b1.
  destruct (gameLoop_ground_friction sqrt canvas800x600 16 w) as (E & S & _);
    [vm_compute; reflexivity | vm_compute; discriminate |].
  split; [exact E |].
  destruct S as (m & F & Em & Ha & Ho & _ & Ex & _); [vm_compute; reflexivity |].
  exists F. injection Em as <-.
  split; [rewrite Ha; vm_compute; reflexivity |].
  split; [exact Ho | exact Ex].
Defined.

(** ** The program's own ball *)

(** The constructor call of the program gives a movable body of inverse
    mass 1/5 with an empty accumulator; without the last argument the body
    starts at rest. *)
Example theBall_fields :
  position theBall = mkVector2 50 100 /\
  velocity theBall = mkVector2 200 (-50) /\
  acceleration theBall = mkVector2 0 0 /\
  _inverseMass theBall == 1 # 5 /\
  mass theBall = Finite (1 / (1 / 5)) /\
  velocity (new_Ball 50 100 50 (Finite 5) (7 # 10) None) = mkVector2 0 0.
Proof. repeat split. Qed.

(** Not-a-number and minus infinity as mass give an immovable body too. *)
Example other_immovable_masses :
  _inverseMass (new_Ball 0 0 1 NaN 1 None) = 0 /\
  _inverseMass (new_Ball 0 0 1 NegInfinity 1 None) = 0 /\
  mass (new_Ball 0 0 1 NaN 1 None) = Infinity.
Proof. repeat split. Qed.

(** The first frame of the program on an 800 by 600 canvas, 16 ms after the
    start, with drag switched off by a square root that returns 0: the ball
    is in the air, so gravity alone acts. *)
Example first_frame :
  let w := gameLoop (fun _ => 0) canvas800x600 16 (mkWorld theBall 0) in
  lastTime w = 16 /\
  x (velocity (ball w)) == 200 /\
  y (velocity (ball w)) == - 50 + 600 * (2 # 125) /\
  x (position (ball w)) == 50 + 200 * (2 # 125) /\
  y (position (ball w)) == 100 + (- 50 + 600 * (2 # 125)) * (2 # 125) /\
  acceleration (ball w) = mkVector2 0 0.
Proof. vm_compute. repeat split. Qed.

(** * Further properties of the class and of the frame *)

(** ** What a frame leaves alone *)

Lemma update_frame dt b :
  _inverseMass (update dt b) = _inverseMass b /\
  restitution (update dt b) = restitution b /\
  radius (update dt b) = radius b.
Proof. unfold update. branches; repeat split. Qed.

Lemma groundFriction_frame canvas b :
  _inverseMass (groundFriction canvas b) = _inverseMass b /\
  restitution (groundFriction canvas b) = restitution b /\
  radius (groundFriction canvas b) = radius b /\
  position (groundFriction canvas b) = position b /\
  y (velocity (groundFriction canvas b)) = y (velocity b).
Proof.
  unfold groundFriction.
  destruct (_ && _); [| repeat split].
  destruct (_ <? _); [| repeat split].
  destruct (mass b); try (repeat split; fail).
  cbv zeta.
  destruct (applyForce_frame
              (mkVector2 (- Math_sign (x (velocity b))
                          * (FRICTION_COEFF * q * GRAVITY_FORCE)) 0) b)
    as (E1 & E2 & E3 & E4 & E5).
  rewrite E1, E2, E3, E4, E5. repeat split.
Qed.


(** The forces of one frame, before integration. *)
Lemma frame_forces_frame sqrt canvas b :
  let b1 := groundFriction canvas
              (applyAirResistance sqrt DRAG_COEFF (applyGravity GRAVITY_FORCE b)) in
  _inverseMass b1 = _inverseMass b /\
  restitution b1 = restitution b /\
  radius b1 = radius b /\
  position b1 = position b /\
  y (velocity b1) = y (velocity b).
Proof.
  intros b1. subst b1.
  destruct (applyGravity_frame GRAVITY_FORCE b) as (G1 & G2 & G3 & G4 & G5).
  destruct (applyAirResistance_frame sqrt DRAG_COEFF (applyGravity GRAVITY_FORCE b))
    as (A1 & A2 & A3 & A4 & A5).
  destruct (groundFriction_frame canvas
              (applyAirResistance sqrt DRAG_COEFF (applyGravity GRAVITY_FORCE b)))
    as (F1 & F2 & F3 & F4 & F5).
  rewrite F1, F2, F3, F4, F5, A1, A2, A3, A4, A5, G1, G2, G3, G4, G5.
  repeat split.
Qed.

Lemma gameLoop_frame sqrt canvas timestamp w :
  _inverseMass (ball (gameLoop sqrt canvas timestamp w)) = _inverseMass (ball w) /\
  restitution (ball (gameLoop sqrt canvas timestamp w)) = restitution (ball w) /\
  radius (ball (gameLoop sqrt canvas timestamp w)) = radius (ball w).
Proof.
  unfold gameLoop. cbv zeta. simpl ball.
  match goal with
  | |- context [ checkCollisions canvas (update ?dt ?b1) ] =>
      destruct (checkCollisions_frame canvas (update dt b1)) as (C1 & _ & C2 & C3);
      destruct (update_frame dt b1) as (U1 & U2 & U3);
      rewrite C1, C2, C3, U1, U2, U3
  end.
  destruct (frame_forces_frame sqrt canvas (ball w)) as (F1 & F2 & F3 & _).
  cbv zeta in F1, F2, F3. rewrite F1, F2, F3. repeat split.
Qed.

(** ** Mass and inverse mass *)

(** X1.  In exact arithmetic the [mass] getter gives back the mass a body
    was built with when that mass is finite and positive: the inverse mass
    is [1 / m] and the getter returns [1 / (1 / m)], which equals [m] as a
    rational.  For every other mass (zero, negative, infinite or not a
    number) the getter returns [Infinity]. *)
Theorem mass_round_trip
    (x0 y0 radius0 restitution0 : Q) (initialVelocity : option Vector2) :
  (forall m : Q, 0 < m ->
     let b := new_Ball x0 y0 radius0 (Finite m) restitution0 initialVelocity in
     _inverseMass b == 1 / m /\
     exists m' : Q, mass b = Finite m' /\ m' == m) /\
  (forall mass0 : number,
     match mass0 with Finite m => m <= 0 | _ => True end ->
     mass (new_Ball x0 y0 radius0 mass0 restitution0 initialVelocity) = Infinity).
Proof.
  split.
  - intros m Hm b.
    assert (E : _inverseMass b = 1 / m).
    { subst b. simpl. destruct (Qleb_spec m 0); [lra | reflexivity]. }
    split; [rewrite E; reflexivity |].
    assert (Hi : 0 < 1 / m).
    { unfold Qdiv. rewrite Qmult_1_l. apply Qinv_lt_0_compat, Hm. }
    exists (1 / _inverseMass b). split.
    + apply mass_movable. unfold movable. rewrite E. exact Hi.
    + rewrite E. field. lra.
  - intros mass0 H. unfold mass.
    destruct mass0 as [m | | |]; simpl; try reflexivity.
    destruct (Qleb_spec m 0); [reflexivity | contradiction].
Qed.

Lemma mass_round_trip_witness :
  (exists m' : Q, mass theBall = Finite m' /\ m' == 5) /\
  mass (new_Ball 50 100 50 (Finite (-5)) (7 # 10) None) = Infinity.
Proof.
  destruct (mass_round_trip 50 100 50 (7 # 10) (Some (mkVector2 200 (-50))))
    as [P _].
  destruct (mass_round_trip 50 100 50 (7 # 10) None) as [_ N].
  split.
  - apply (P 5). vm_compute. reflexivity.
  - apply (N (Finite (-5))). vm_compute. discriminate.
Defined.




(** ** Forces *)

(** X3.  Forces superpose: two [applyForce] calls leave the accumulator that
    one call with the sum of the two forces leaves, in either order, and no
    [applyForce] call changes the position or the velocity. *)
Theorem applyForce_superposes (f1 f2 : Vector2) (b : Ball) :
  let b12 := applyForce f2 (applyForce f1 b) in
  let b21 := applyForce f1 (applyForce f2 b) in
  let bs := applyForce (mkVector2 (x f1 + x f2) (y f1 + y f2)) b in
  x (acceleration b12) == x (acceleration bs) /\
  y (acceleration b12) == y (acceleration bs) /\
  x (acceleration b21) == x (acceleration bs) /\
  y (acceleration b21) == y (acceleration bs) /\
  position b12 = position b /\ velocity b12 = velocity b.
Proof.
  unfold applyForce, inverseMass.
  destruct (Qleb_spec (_inverseMass b) 0) as [Hi | Hm]; simpl.
  - destruct (Qleb_spec (_inverseMass b) 0); [| contradiction].
    repeat split; reflexivity.
  - destruct (Qleb_spec (_inverseMass b) 0); [contradiction |].
    simpl. repeat split; ring.
Qed.

(** X4.  Drag never pushes a body along its motion: for a drag coefficient
    that is not negative, and a speed [Math.sqrt] does not return negative,
    the acceleration [applyAirResistance] adds has a scalar product with the
    velocity that is zero or negative; position and velocity are not
    touched. *)
Theorem drag_opposes_motion (sqrt : Q -> Q) (k : Q) (b : Ball) :
  0 <= k ->
  0 <= sqrt (x (velocity b) * x (velocity b) + y (velocity b) * y (velocity b)) ->
  let b' := applyAirResistance sqrt k b in
  (x (acceleration b') - x (acceleration b)) * x (velocity b)
  + (y (acceleration b') - y (acceleration b)) * y (velocity b) <= 0 /\
  position b' = position b /\ velocity b' = velocity b.
Proof.
  intros Hk Hs b'.
  destruct (applyAirResistance_frame sqrt k b) as (_ & _ & _ & Ep & Ev).
  split; [| split; [exact Ep | exact Ev]].
  subst b'. unfold applyAirResistance.
  destruct (Qleb_spec (_inverseMass b) 0) as [Hi | Hm]; [lra |].
  cbv zeta.
  set (speed := sqrt (x (velocity b) * x (velocity b)
                      + y (velocity b) * y (velocity b))) in *.
  destruct (Qltb_spec speed (1 # 1000)); [lra |].
  rewrite applyForce_movable by (unfold movable; lra). simpl.
  set (vx := x (velocity b)). set (vy := y (velocity b)).
  set (im := _inverseMass b) in *.
  assert (E : (x (acceleration b) + - k * speed * vx * im - x (acceleration b)) * vx
              + (y (acceleration b) + - k * speed * vy * im - y (acceleration b)) * vy
              == - ((k * speed) * im * (vx * vx + vy * vy))) by ring.
  rewrite E.
  assert (0 <= k * speed) by nra.
  assert (0 <= k * speed * im) by nra.
  assert (0 <= vx * vx + vy * vy) by nra.
  nra.
Qed.

Lemma drag_opposes_motion_witness :
  let sqrt := fun _ : Q => 200 in
  let b' := applyAirResistance sqrt DRAG_COEFF slidingBall in
  x (acceleration b') == - 8 /\
  (x (acceleration b') - 0) * 200 + (y (acceleration b') - 0) * 0 <= 0.
Proof.
  intros sqrt b'. split; [vm_compute; reflexivity |].
  apply (drag_opposes_motion sqrt DRAG_COEFF slidingBall); vm_compute; discriminate.
Defined.

(** ** The time step of a frame *)

(** The time step [gameLoop] integrates with. *)
Lemma gameLoop_ball sqrt canvas timestamp w :
  ball (gameLoop sqrt canvas timestamp w)
  = checkCollisions canvas
      (update (if (1 # 20) <? (timestamp - lastTime w) / 1000
               then 1 # 20 else (timestamp - lastTime w) / 1000)
         (groundFriction canvas
            (applyAirResistance sqrt DRAG_COEFF
               (applyGravity GRAVITY_FORCE (ball w))))).
Proof. reflexivity. Qed.

(** X5.  A frame that comes more than 50 ms after the previous one is
    integrated with a step of exactly 0.05 s: the ball it leaves does not
    depend on how late the frame is.  [lastTime] becomes the timestamp of
    the frame all the same. *)
Theorem long_pause_is_clamped
    (sqrt : Q -> Q) (canvas : Canvas) (t1 t2 : Q) (w : World) :
  50 < t1 - lastTime w ->
  50 < t2 - lastTime w ->
  ball (gameLoop sqrt canvas t1 w) = ball (gameLoop sqrt canvas t2 w) /\
  ball (gameLoop sqrt canvas t1 w)
  = checkCollisions canvas
      (update (1 # 20)
         (groundFriction canvas
            (applyAirResistance sqrt DRAG_COEFF
               (applyGravity GRAVITY_FORCE (ball w))))) /\
  lastTime (gameLoop sqrt canvas t1 w) = t1 /\
  lastTime (gameLoop sqrt canvas t2 w) = t2.
Proof.
  intros H1 H2. rewrite !gameLoop_ball.
  destruct (Qltb_spec (1 # 20) ((t1 - lastTime w) / 1000)) as [_ | N1].
  2:{ exfalso. apply N1. apply Qlt_shift_div_l; [reflexivity | lra]. }
  destruct (Qltb_spec (1 # 20) ((t2 - lastTime w) / 1000)) as [_ | N2].
  2:{ exfalso. apply N2. apply Qlt_shift_div_l; [reflexivity | lra]. }
  repeat split.
Qed.

Lemma long_pause_is_clamped_witness :
  ball (gameLoop (fun _ => 0) canvas800x600 60 (mkWorld theBall 0))
  = ball (gameLoop (fun _ => 0) canvas800x600 5000 (mkWorld theBall 0)).
Proof.
  apply (long_pause_is_clamped (fun _ => 0) canvas800x600 60 5000
           (mkWorld theBall 0)); vm_compute; reflexivity.
Defined.

(** X6.  The step is never longer than 0.05 s, and a frame that comes
    within 50 ms of the previous one is integrated with the elapsed time in
    seconds.  A timestamp that lies before [lastTime] gives a negative step:
    the clamp is one-sided. *)
Theorem frame_step_bounds
    (sqrt : Q -> Q) (canvas : Canvas) (timestamp : Q) (w : World) :
  exists dt : Q,
    ball (gameLoop sqrt canvas timestamp w)
    = checkCollisions canvas
        (update dt
           (groundFriction canvas
              (applyAirResistance sqrt DRAG_COEFF
                 (applyGravity GRAVITY_FORCE (ball w))))) /\
    dt <= 1 # 20 /\
    (timestamp - lastTime w <= 50 -> dt = (timestamp - lastTime w) / 1000) /\
    (timestamp < lastTime w -> dt < 0).
Proof.
  rewrite gameLoop_ball.
  assert (S : forall e : Q, e / 1000 == e * (1 # 1000)) by (intros e; field).
  destruct (Qltb_spec (1 # 20) ((timestamp - lastTime w) / 1000)) as [L | L];
    eexists; (split; [reflexivity |]); rewrite S in L.
  - split; [lra |]. split; intros H; lra.
  - split; [rewrite S; lra |]. split; [reflexivity |].
    intros H. rewrite S. lra.
Qed.

Lemma frame_step_bounds_witness :
  exists dt : Q,
    ball (gameLoop (fun _ => 0) canvas800x600 16 (mkWorld theBall 0))
    = checkCollisions canvas800x600
        (update dt
           (groundFriction canvas800x600
              (applyAirResistance (fun _ => 0) DRAG_COEFF
                 (applyGravity GRAVITY_FORCE theBall)))) /\
    dt = (16 - 0) / 1000.
Proof.
  destruct (frame_step_bounds (fun _ => 0) canvas800x600 16 (mkWorld theBall 0))
    as (dt & E & _ & H & _).
  exists dt. split; [exact E |].
  apply H. vm_compute. discriminate.
Defined.

(** ** Invariants of a run of frames *)

Lemma frames_frame sqrt canvas ts : forall w,
  _inverseMass (ball (frames sqrt canvas ts w)) = _inverseMass (ball w) /\
  restitution (ball (frames sqrt canvas ts w)) = restitution (ball w) /\
  radius (ball (frames sqrt canvas ts w)) = radius (ball w).
Proof.
  induction ts as [| t ts IH]; intros w; simpl.
  - repeat split.
  - destruct (IH (gameLoop sqrt canvas t w)) as (I1 & I2 & I3).
    destruct (gameLoop_frame sqrt canvas t w) as (G1 & G2 & G3).
    rewrite I1, I2, I3, G1, G2, G3. repeat split.
Qed.

Lemma gameLoop_inside sqrt canvas timestamp w :
  fits canvas (ball w) -> inside canvas (ball (gameLoop sqrt canvas timestamp w)).
Proof.
  intros [Hw Hh]. rewrite gameLoop_ball.
  match goal with
  | |- inside canvas (checkCollisions canvas (update ?dt ?b1)) =>
      apply checkCollisions_inside;
      destruct (update_frame dt b1) as (_ & _ & U)
  end.
  destruct (frame_forces_frame sqrt canvas (ball w)) as (_ & _ & F & _).
  cbv zeta in F. unfold fits. rewrite U, F. split; assumption.
Qed.

(** X7.  When the ball fits between opposite edges of the canvas, it lies
    inside the canvas after every frame, whatever its position and velocity
    before the first frame and whatever the timestamps; its radius,
    restitution and inverse mass are those it started with. *)
Theorem frames_keep_ball_inside
    (sqrt : Q -> Q) (canvas : Canvas) (timestamps : list Q) (w : World) :
  2 * radius (ball w) <= width canvas ->
  2 * radius (ball w) <= height canvas ->
  timestamps <> [] ->
  let b' := ball (frames sqrt canvas timestamps w) in
  radius (ball w) <= x (position b') <= width canvas - radius (ball w) /\
  radius (ball w) <= y (position b') <= height canvas - radius (ball w) /\
  radius b' = radius (ball w) /\
  restitution b' = restitution (ball w) /\
  _inverseMass b' = _inverseMass (ball w).
Proof.
  intros Hw Hh Hne b'. subst b'.
  destruct (frames_frame sqrt canvas timestamps w) as (Ei & Ee & Er).
  enough (I : inside canvas (ball (frames sqrt canvas timestamps w))).
  { unfold inside in I. rewrite Er in I. destruct I as [Ix Iy].
    repeat split; tauto. }
  revert w Hw Hh Ei Ee Er.
  induction timestamps as [| t ts IH]; intros w Hw Hh _ _ _; [congruence |].
  simpl. destruct ts as [| t' ts].
  - simpl. apply gameLoop_inside. split; assumption.
  - destruct (gameLoop_frame sqrt canvas t w) as (_ & _ & Gr).
    destruct (frames_frame sqrt canvas (t' :: ts) (gameLoop sqrt canvas t w))
      as (Fi & Fe & Fr).
    apply IH; try discriminate; try assumption; rewrite Gr; assumption.
Qed.

Lemma frames_keep_ball_inside_witness :
  let b' := ball (frames (fun _ => 0) canvas800x600 [16; 32; 5000]
                    (mkWorld cornerBall 0)) in
  50 <= y (position b') <= 600 - 50.
Proof.
  intros b'.
  destruct (frames_keep_ball_inside (fun _ => 0) canvas800x600 [16; 32; 5000]
              (mkWorld cornerBall 0)) as (_ & Hy & _);
    [vm_compute; discriminate | vm_compute; discriminate | discriminate |].
  exact Hy.
Defined.



(** X9.  After a frame the accumulator of a movable ball is empty: no force
    of one frame is carried into the next. *)
Theorem frame_leaves_accumulator_empty
    (sqrt : Q -> Q) (canvas : Canvas) (timestamp : Q) (w : World) :
  0 < _inverseMass (ball w) ->
  acceleration (ball (gameLoop sqrt canvas timestamp w)) = mkVector2 0 0.
Proof.
  intros Hm. rewrite gameLoop_ball.
  match goal with
  | |- acceleration (checkCollisions canvas (update ?dt ?b1)) = _ =>
      destruct (checkCollisions_frame canvas (update dt b1)) as (_ & A & _);
      rewrite A; unfold update
  end.
  destruct (frame_forces_frame sqrt canvas (ball w)) as (F & _).
  cbv zeta in F. rewrite F.
  destruct (Qleb_spec (_inverseMass (ball w)) 0); [lra | reflexivity].
Qed.

Lemma frame_leaves_accumulator_empty_witness :
  acceleration (ball (gameLoop (fun _ => 0) canvas800x600 16
                        (mkWorld (applyForce (mkVector2 1000 1000) slidingBall) 0)))
  = mkVector2 0 0.
Proof.
  apply frame_leaves_accumulator_empty. vm_compute. reflexivity.
Defined.

(** ** More on boundary collisions *)

(** X10.  With a restitution between 0 and 1, [checkCollisions] never makes
    a velocity component larger in magnitude, and it leaves the accumulator,
    the radius, the restitution and the inverse mass alone. *)
Theorem checkCollisions_never_speeds_up (canvas : Canvas) (b : Ball) :
  0 <= restitution b <= 1 ->
  let b' := checkCollisions canvas b in
  Qabs (x (velocity b')) <= Qabs (x (velocity b)) /\
  Qabs (y (velocity b')) <= Qabs (y (velocity b)) /\
  acceleration b' = acceleration b /\
  radius b' = radius b /\ restitution b' = restitution b /\
  _inverseMass b' = _inverseMass b.
Proof.
  intros [H0 H1] b'. subst b'.
  destruct (checkCollisions_frame canvas b) as (Ei & Ea & Ee & Er).
  pose proof (checkCollisions_x canvas b) as (X1 & X2 & X3).
  pose proof (checkCollisions_y canvas b) as (Y1 & Y2 & Y3).
  cbv zeta in *.
  assert (S : forall v : Q, Qabs (- v * restitution b) <= Qabs v).
  { intros v. rewrite Qabs_Qmult, Qabs_opp, (Qabs_pos (restitution b)) by exact H0.
    pose proof (Qabs_nonneg v). nra. }
  repeat split; try assumption.
  - destruct (Qlt_le_dec (x (position b) - radius b) 0) as [L | L].
    + destruct (X1 L) as [_ ->]. apply S.
    + destruct (Qlt_le_dec (width canvas) (x (position b) + radius b)) as [R | R].
      * destruct X2 as [_ ->]; [lra | exact R | apply S].
      * destruct X3 as [_ ->]; lra.
  - destruct (Qlt_le_dec (y (position b) - radius b) 0) as [L | L].
    + destruct (Y1 L) as [_ ->]. apply S.
    + destruct (Qlt_le_dec (height canvas) (y (position b) + radius b)) as [R | R].
      * destruct Y2 as [_ ->]; [lra | exact R | apply S].
      * destruct Y3 as [_ ->]; lra.
Qed.

Lemma checkCollisions_never_speeds_up_witness :
  let b' := checkCollisions canvas800x600 cornerBall in
  Qabs (x (velocity b')) <= 100 /\ Qabs (y (velocity b')) <= 200.
Proof.
  intros b'.
  destruct (checkCollisions_never_speeds_up canvas800x600 cornerBall)
    as (Hx & Hy & _); [vm_compute; split; discriminate |].
  split; [exact Hx | exact Hy].
Defined.

(** X11.  In exact arithmetic [checkCollisions] returns the body as it is
    exactly when the body lies inside the canvas; a body that sticks out
    anywhere is moved. *)
Theorem checkCollisions_fixed_iff_inside (canvas : Canvas) (b : Ball) :
  checkCollisions canvas b = b <-> inside canvas b.
Proof.
  split; [| apply checkCollisions_fixed].
  intros E.
  pose proof (checkCollisions_x canvas b) as (X1 & X2 & _).
  pose proof (checkCollisions_y canvas b) as (Y1 & Y2 & _).
  cbv zeta in *. rewrite E in X1, X2, Y1, Y2. unfold inside.
  assert (Lx : ~ x (position b) - radius b < 0).
  { intros L. destruct (X1 L) as [P _]. rewrite P in L. lra. }
  assert (Rx : ~ width canvas < x (position b) + radius b).
  { intros R. destruct (X2 Lx R) as [P _]. rewrite P in R. lra. }
  assert (Ly : ~ y (position b) - radius b < 0).
  { intros L. destruct (Y1 L) as [P _]. rewrite P in L. lra. }
  assert (Ry : ~ height canvas < y (position b) + radius b).
  { intros R. destruct (Y2 Ly R) as [P _]. rewrite P in R. lra. }
  lra.
Qed.

Lemma checkCollisions_fixed_iff_inside_witness :
  checkCollisions canvas800x600 risingBall <> risingBall.
Proof.
  intros E.
  apply (checkCollisions_fixed_iff_inside canvas800x600 risingBall) in E.
  destruct E as [_ [_ H]]. vm_compute in H. apply H. reflexivity.
Defined.

(** ** More on integration *)

Lemma update_movable dt b :
  movable b ->
  update dt b
  = mkBall
      (mkVector2
         (x (position b) + (x (velocity b) + x (acceleration b) * dt) * dt)
         (y (position b) + (y (velocity b) + y (acceleration b) * dt) * dt))
      (mkVector2 (x (velocity b) + x (acceleration b) * dt)
                 (y (velocity b) + y (acceleration b) * dt))
      (mkVector2 0 0) (_inverseMass b) (restitution b) (radius b).
Proof.
  unfold movable, update. intros Hm.
  destruct (Qleb_spec (_inverseMass b) 0); [lra | reflexivity].
Qed.

(** X12.  With nothing in the accumulator a movable body moves uniformly:
    two steps [dt1] and [dt2] in a row bring it where one step
    [dt1 + dt2] brings it, with the velocity it had. *)
Theorem free_flight_steps_add (dt1 dt2 : Q) (b : Ball) :
  0 < _inverseMass b ->
  acceleration b = mkVector2 0 0 ->
  let b2 := update dt2 (update dt1 b) in
  let b1 := update (dt1 + dt2) b in
  x (position b2) == x (position b1) /\
  y (position b2) == y (position b1) /\
  x (velocity b2) == x (velocity b) /\
  y (velocity b2) == y (velocity b) /\
  x (position b1) == x (position b) + x (velocity b) * (dt1 + dt2) /\
  y (position b1) == y (position b) + y (velocity b) * (dt1 + dt2).
Proof.
  intros Hm Ha b2 b1. subst b2 b1.
  assert (Hm1 : movable (update dt1 b))
    by (unfold movable; rewrite update_inverseMass; exact Hm).
  rewrite (update_movable dt2 _ Hm1).
  rewrite !(update_movable _ b Hm). simpl. rewrite Ha. simpl.
  repeat split; ring.
Qed.

Lemma free_flight_steps_add_witness :
  x (position (update (1 # 100) (update (2 # 100) theBall)))
  == x (position (update ((2 # 100) + (1 # 100)) theBall)).
Proof.
  apply (free_flight_steps_add (2 # 100) (1 # 100) theBall);
    vm_compute; reflexivity.
Defined.

(** X13.  In exact arithmetic free fall does not depend on the mass: two
    movable bodies with the same position, velocity and accumulator are at
    the same place with the same velocity, as rationals, after
    [applyGravity g] and [update dt], whatever their inverse masses. *)
Theorem free_fall_ignores_mass (g dt : Q) (b1 b2 : Ball) :
  0 < _inverseMass b1 ->
  0 < _inverseMass b2 ->
  position b1 = position b2 ->
  velocity b1 = velocity b2 ->
  acceleration b1 = acceleration b2 ->
  let b1' := update dt (applyGravity g b1) in
  let b2' := update dt (applyGravity g b2) in
  x (position b1') == x (position b2') /\
  y (position b1') == y (position b2') /\
  x (velocity b1') == x (velocity b2') /\
  y (velocity b1') == y (velocity b2') /\
  y (velocity b1') == y (velocity b1) + (y (acceleration b1) + g) * dt.
Proof.
  intros Hm1 Hm2 Ep Ev Ea b1' b2'. subst b1' b2'.
  assert (G : forall b, 0 < _inverseMass b ->
            update dt (applyGravity g b)
            = mkBall
                (mkVector2
                   (x (position b)
                    + (x (velocity b)
                       + (x (acceleration b) + 0 * _inverseMass b) * dt) * dt)
                   (y (position b)
                    + (y (velocity b)
                       + (y (acceleration b)
                          + 1 / _inverseMass b * g * _inverseMass b) * dt) * dt))
                (mkVector2
                   (x (velocity b)
                    + (x (acceleration b) + 0 * _inverseMass b) * dt)
                   (y (velocity b)
                    + (y (acceleration b)
                       + 1 / _inverseMass b * g * _inverseMass b) * dt))
                (mkVector2 0 0) (_inverseMass b) (restitution b) (radius b)).
  { intros b Hm.
    destruct (applyGravity_frame g b) as (Gi & Ge & Gr & Gp & Gv).
    rewrite update_movable by (unfold movable; rewrite Gi; exact Hm).
    rewrite Gi, Ge, Gr, Gp, Gv.
    unfold applyGravity.
    destruct (Qleb_spec (_inverseMass b) 0); [lra |].
    rewrite applyForce_movable by exact Hm. reflexivity. }
  rewrite (G b1 Hm1), (G b2 Hm2). simpl. rewrite Ep, Ev, Ea.
  repeat split; field; lra.
Qed.

Lemma free_fall_ignores_mass_witness :
  let heavy := new_Ball 50 100 50 (Finite 500) (7 # 10) (Some (mkVector2 200 (-50))) in
  y (position (update (2 # 125) (applyGravity 600 theBall)))
  == y (position (update (2 # 125) (applyGravity 600 heavy))).
Proof.
  intros heavy.
  apply (free_fall_ignores_mass 600 (2 # 125) theBall heavy);
    vm_compute; reflexivity.
Defined.



(** ** More on ground friction *)



(** The horizontal velocity after the friction block and the integration. *)
Lemma friction_step_vx canvas dt b :
  movable b ->
  height canvas - (1 # 2) <= y (position b) + radius b ->
  (1 # 1000) < Math_abs (x (velocity b)) ->
  x (velocity (update dt (groundFriction canvas b)))
  == x (velocity b)
     + (x (acceleration b)
        - Math_sign (x (velocity b)) * (FRICTION_COEFF * GRAVITY_FORCE)) * dt.
Proof.
  intros Hm Hg Hs.
  destruct (groundFriction_frame canvas b) as (Fi & _ & _ & _ & _).
  rewrite update_movable by (unfold movable; rewrite Fi; exact Hm).
  simpl. unfold groundFriction, inverseMass.
  destruct (Qleb_spec (height canvas - (1 # 2)) (y (position b) + radius b));
    [| contradiction].
  destruct (Qltb_spec 0 (_inverseMass b)); [| contradiction].
  destruct (Qltb_spec (1 # 1000) (Math_abs (x (velocity b)))); [| contradiction].
  rewrite (mass_movable b Hm). cbv zeta. simpl andb. cbv iota.
  destruct (applyForce_frame
              (mkVector2 (- Math_sign (x (velocity b))
                          * (FRICTION_COEFF * (1 / _inverseMass b) * GRAVITY_FORCE)) 0)
              b) as (_ & _ & _ & _ & Ev).
  rewrite Ev, (applyForce_movable _ b Hm). simpl.
  unfold movable in Hm. field. lra.
Qed.

(** X15.  In exact arithmetic sliding friction decelerates every mass alike:
    on a movable body on the ground with [|velocity.x| > 0.001], the
    friction block followed by [update dt] changes [velocity.x] by the
    accumulated acceleration times [dt] and by
    [FRICTION_COEFF * GRAVITY_FORCE * dt] against the sign of [velocity.x];
    as a rational the result does not depend on the inverse mass. *)
Theorem friction_deceleration_ignores_mass (canvas : Canvas) (dt : Q) (b : Ball) :
  0 < _inverseMass b ->
  height canvas - (1 # 2) <= y (position b) + radius b ->
  (1 # 1000) < Qabs (x (velocity b)) ->
  let v' := x (velocity (update dt (groundFriction canvas b))) in
  (0 < x (velocity b) ->
   v' == x (velocity b) + x (acceleration b) * dt - (3 # 10) * 600 * dt) /\
  (x (velocity b) < 0 ->
   v' == x (velocity b) + x (acceleration b) * dt + (3 # 10) * 600 * dt).
Proof.
  intros Hm Hg Hs v'. subst v'.
  pose proof (friction_step_vx canvas dt b Hm Hg Hs) as E.
  unfold FRICTION_COEFF, GRAVITY_FORCE in E.
  destruct (Math_sign_cases (x (velocity b))) as [[Hv S] | [[Hv S] | [Hv S]]];
    rewrite S in E; split; intros H; try lra; rewrite E; ring.
Qed.

Lemma friction_deceleration_ignores_mass_witness :
  x (velocity (update (2 # 125) (groundFriction canvas800x600 slidingBall)))
  == 200 + 0 * (2 # 125) - (3 # 10) * 600 * (2 # 125).
Proof.
  apply (friction_deceleration_ignores_mass canvas800x600 (2 # 125) slidingBall);
    vm_compute; reflexivity || discriminate.
Defined.



(** ** A ball at rest on the ground *)




(** ** A ball that moves vertically *)

Lemma applyForce_x_zero force b :
  x force == 0 ->
  x (acceleration (applyForce force b)) == x (acceleration b) /\
  velocity (applyForce force b) = velocity b /\
  position (applyForce force b) = position b.
Proof.
  intros H. destruct (applyForce_frame force b) as (_ & _ & _ & Ep & Ev).
  split; [| split; assumption].
  unfold applyForce, inverseMass.
  destruct (_inverseMass b <=? 0); simpl; [reflexivity |].
  rewrite H. ring.
Qed.

Lemma groundFriction_x_zero canvas b :
  x (velocity b) == 0 ->
  x (velocity (groundFriction canvas b)) == 0 /\
  acceleration (groundFriction canvas b) = acceleration b.
Proof.
  intros H. unfold groundFriction.
  destruct (_ && _); [| split; [exact H | reflexivity]].
  destruct (Qltb_spec (1 # 1000) (Math_abs (x (velocity b)))) as [L | _].
  - exfalso. unfold Math_abs in L. rewrite H in L. vm_compute in L. discriminate.
  - split; reflexivity.
Qed.

(** One frame keeps a ball without horizontal motion on its vertical line. *)
Lemma gameLoop_vertical sqrt canvas timestamp w :
  x (velocity (ball w)) == 0 ->
  x (acceleration (ball w)) == 0 ->
  radius (ball w) <= x (position (ball w)) <= width canvas - radius (ball w) ->
  let b' := ball (gameLoop sqrt canvas timestamp w) in
  x (velocity b') == 0 /\
  x (acceleration b') == 0 /\
  x (position b') == x (position (ball w)).
Proof.
  intros Hv Ha Hx b'. subst b'. rewrite gameLoop_ball.
  set (dt := if (1 # 20) <? (timestamp - lastTime w) / 1000
             then 1 # 20 else (timestamp - lastTime w) / 1000).
  clearbody dt. set (b := ball w) in *.
  (* gravity *)
  set (b1 := applyGravity GRAVITY_FORCE b).
  assert (G : x (acceleration b1) == 0 /\ velocity b1 = velocity b
              /\ position b1 = position b).
  { subst b1. unfold applyGravity.
    destruct (_inverseMass b <=? 0); [repeat split; exact Ha |].
    cbv zeta.
    destruct (applyForce_x_zero
                (mkVector2 0 (1 / _inverseMass b * GRAVITY_FORCE)) b)
      as (E1 & E2 & E3); [reflexivity |].
    rewrite E1. repeat split; assumption. }
  destruct G as (Ga & Gv & Gp).
  (* drag *)
  set (b2 := applyAirResistance sqrt DRAG_COEFF b1).
  assert (D : x (acceleration b2) == 0 /\ velocity b2 = velocity b
              /\ position b2 = position b).
  { subst b2. unfold applyAirResistance.
    destruct (_inverseMass b1 <=? 0); [repeat split; assumption |].
    cbv zeta.
    destruct (_ <? (1 # 1000)); [repeat split; assumption |].
    match goal with
    | |- context [ applyForce ?F b1 ] =>
        destruct (applyForce_x_zero F b1) as (E1 & E2 & E3)
    end.
    { cbn [x]. rewrite Gv. set (speed := sqrt _). clearbody speed.
      rewrite Hv. ring. }
    rewrite E1, E2, E3. repeat split; assumption. }
  destruct D as (Da & Dv & Dp).
  (* friction *)
  set (b3 := groundFriction canvas b2).
  destruct (groundFriction_x_zero canvas b2) as (Fv & Fa);
    [rewrite Dv; exact Hv |].
  destruct (groundFriction_frame canvas b2) as (_ & _ & Fr & Fp & _).
  fold b3 in Fv, Fa, Fr, Fp.
  destruct (applyGravity_frame GRAVITY_FORCE b) as (_ & _ & Gr & _).
  destruct (applyAirResistance_frame sqrt DRAG_COEFF b1) as (_ & _ & Dr & _).
  fold b1 in Gr, Dr. fold b2 in Dr.
  (* integration *)
  set (b4 := update dt b3).
  assert (U : x (velocity b4) == 0 /\ x (acceleration b4) == 0
              /\ x (position b4) == x (position b) /\ radius b4 = radius b).
  { subst b4. unfold update.
    destruct (_inverseMass b3 <=? 0); simpl.
    - rewrite Fa, Fp, Dp, Fr, Dr, Gr. repeat split; try assumption; reflexivity.
    - rewrite Fa, Fp, Dp, Fr, Dr, Gr, Fv, Da.
      repeat split; ring. }
  destruct U as (Uv & Ua & Up & Ur).
  (* collision *)
  destruct (checkCollisions_frame canvas b4) as (_ & Ca & _ & _).
  pose proof (checkCollisions_x canvas b4) as (_ & _ & X3). cbv zeta in X3.
  destruct X3 as [Px Vx]; [rewrite Up, Ur; lra | rewrite Up, Ur; lra |].
  rewrite Px, Vx, Ca. repeat split; assumption.
Qed.

(** X18.  A ball without horizontal velocity, with nothing horizontal in the
    accumulator, clear of the left and right edges, stays on its vertical
    line: after any number of frames its [velocity.x] is zero and its
    [position.x] is the one it started with. *)
Theorem vertical_motion_stays_vertical
    (sqrt : Q -> Q) (canvas : Canvas) (timestamps : list Q) (w : World) :
  x (velocity (ball w)) == 0 ->
  x (acceleration (ball w)) == 0 ->
  radius (ball w) <= x (position (ball w)) <= width canvas - radius (ball w) ->
  let b' := ball (frames sqrt canvas timestamps w) in
  x (velocity b') == 0 /\ x (position b') == x (position (ball w)).
Proof.
  intros Hv Ha Hx b'. subst b'.
  enough (I : x (velocity (ball (frames sqrt canvas timestamps w))) == 0 /\
              x (acceleration (ball (frames sqrt canvas timestamps w))) == 0 /\
              x (position (ball (frames sqrt canvas timestamps w)))
              == x (position (ball w))) by tauto.
  revert w Hv Ha Hx.
  induction timestamps as [| t ts IH]; intros w Hv Ha Hx; simpl.
  - repeat split; assumption || reflexivity.
  - destruct (gameLoop_vertical sqrt canvas t w Hv Ha Hx) as (Gv & Ga & Gp).
    destruct (gameLoop_frame sqrt canvas t w) as (_ & _ & Gr).
    destruct (IH (gameLoop sqrt canvas t w)) as (Iv & Ia & Ip);
      [exact Gv | exact Ga | rewrite Gp, Gr; exact Hx |].
    repeat split; [exact Iv | exact Ia | rewrite Ip; exact Gp].
Qed.

Lemma vertical_motion_stays_vertical_witness :
  let b' := ball (frames (fun q => q) canvas800x600 [16; 32; 48]
                    (mkWorld risingBall 0)) in
  x (velocity b') == 0 /\ x (position b') == 400.
Proof.
  apply (vertical_motion_stays_vertical (fun q => q) canvas800x600 [16; 32; 48]
           (mkWorld risingBall 0)).
  - reflexivity.
  - reflexivity.
  - vm_compute. split; discriminate.
Defined.
